(** * CodeSorted: the Python executor handler and a sample submission

    Shallow embedding of
      - [src/backend/lambda/python_executor_lambda.py] ([lambda_handler]),
      - [src/frontend/twosum_solution.py] ([twoSum]),
      - [src/backend/internal/ai/test.py] ([median_of_two_sorted_arrays]).

    Modelling conventions.
      - Python values that can reach the handler through the event are the
        inductive [pyval]; [int] is unbounded ([Z]); [float] is idealised as
        an exact rational ([Q]), so rounding and the range limit of doubles
        are not represented.
      - The handler runs in a state-and-exception monad over a [World]: the
        files under [/tmp] it has written, the number of clock readings so
        far, and the log of the calls it made on its environment.
      - What the environment answers (I/O faults, the behaviour of the child
        interpreter, the clock, the output of [ps]) is an [Oracle].
      - Every exception of the model is an instance of Python's [Exception];
        asynchronous [BaseException]s (KeyboardInterrupt) are outside it. *)

From Stdlib Require Import ZArith QArith Qminmax String List Lia.
From stdpp Require Import base option gmap strings list sorting pretty.
Import ListNotations.

Local Open Scope string_scope.
Local Open Scope Z_scope.

(** ** twoSum *)

Module TwoSum.

(** The body of the [for i, num in enumerate(nums)] loop, from index [i] on
    with the dictionary [seen] built so far.  [return [seen[complement], i]]
    leaves the loop; falling off the end returns [[]]. *)
Fixpoint twoSum_loop (seen : gmap Z nat) (i : nat) (nums : list Z) (target : Z)
  : list nat :=
  match nums with
  | [] => []
  | num :: rest =>
      let complement := target - num in
      match seen !! complement with
      | Some j => [j; i]
      | None => twoSum_loop (<[num := i]> seen) (S i) rest target
      end
  end.

Definition twoSum (nums : list Z) (target : Z) : list nat :=
  twoSum_loop ∅ 0 nums target.

(** A pair of positions of [nums] that adds up to [target]. *)
Definition is_pair (nums : list Z) (target : Z) (i j : nat) : Prop :=
  (i < j)%nat ∧ ∃ a b, nums !! i = Some a ∧ nums !! j = Some b ∧ a + b = target.

End TwoSum.

(** ** The executor handler *)

Module Executor.

(** *** Python values and exceptions *)

#[warnings="-register-all"] Inductive pyval :=
  | PNone
  | PBool (b : bool)
  | PInt (z : Z)
  | PFloat (q : Q)
  | PStr (s : string)
  | PList (l : list pyval)
  | PDict (d : gmap string pyval).

Definition type_name (v : pyval) : string :=
  match v with
  | PNone => "NoneType"
  | PBool _ => "bool"
  | PInt _ => "int"
  | PFloat _ => "float"
  | PStr _ => "str"
  | PList _ => "list"
  | PDict _ => "dict"
  end.

(** Truth value of an object, as [not code] tests it. *)
Definition truthy (v : pyval) : bool :=
  match v with
  | PNone => false
  | PBool b => b
  | PInt z => negb (z =? 0)
  | PFloat q => negb (Qnum q =? 0)
  | PStr s => negb (String.eqb s "")
  | PList l => match l with [] => false | _ => true end
  | PDict d => negb (bool_decide (d = ∅))
  end.

(** The exception classes the handler can meet; all derive from
    [Exception].  [exn_str] is [str(e)]. *)
Inductive exn_class :=
  | AttributeError
  | TypeError
  | ValueError
  | OSError
  | UnboundLocalError
  | TimeoutExpired
  | OtherException.

Record exn := Exn { exn_cls : exn_class; exn_str : string }.

Definition is_TimeoutExpired (e : exn) : bool :=
  match exn_cls e with TimeoutExpired => true | _ => false end.

Inductive result (A : Type) :=
  | Ok (a : A)
  | Raise (e : exn).
Arguments Ok {A} a.
Arguments Raise {A} e.

(** [event.get(key, dflt)]: only a dict has the method. *)
Definition dict_get (event : pyval) (key : string) (dflt : pyval) : result pyval :=
  match event with
  | PDict d => Ok (default dflt (d !! key))
  | _ => Raise (Exn AttributeError
                  ("'" +:+ type_name event +:+ "' object has no attribute 'get'"))
  end.

(** [v / d] for a positive integer literal [d]: true division, a float. *)
Definition truediv (v : pyval) (d : positive) : result Q :=
  match v with
  | PInt z => Ok (z # d)
  | PBool b => Ok ((if b then 1 else 0) # d)
  | PFloat q => Ok (q / inject_Z (Zpos d))%Q
  | _ => Raise (Exn TypeError
                  ("unsupported operand type(s) for /: '" +:+ type_name v
                   +:+ "' and 'int'"))
  end.

(** [min(x, b)] for a float [x] and an integer literal [b]: the first
    argument is kept unless the second is strictly smaller. *)
Definition py_min (x : Q) (b : Z) : pyval :=
  if Qle_bool x (inject_Z b) then PFloat x else PInt b.

(** Numeric value of an [int], [bool] or [float]. *)
Definition num_val (v : pyval) : option Q :=
  match v with
  | PInt z => Some (inject_Z z)
  | PBool b => Some (inject_Z (if b then 1 else 0))
  | PFloat q => Some q
  | _ => None
  end.

(** [execution_timeout = min(time_limit_ms / 1000, 8)] *)
Definition execution_timeout (time_limit_ms : pyval) : result pyval :=
  match truediv time_limit_ms 1000 with
  | Ok x => Ok (py_min x 8)
  | Raise e => Raise e
  end.

(** [int(x)] on a float truncates towards zero. *)
Definition int_of_float (x : Q) : Z := Z.quot (Qnum x) (Zpos (Qden x)).

(** [int((t1 - t0) * 1000)] *)
Definition elapsed_ms (t0 t1 : Q) : Z :=
  int_of_float ((t1 - t0) * inject_Z 1000)%Q.

(** [s or dflt] on strings. *)
Definition str_or (s dflt : string) : string :=
  if String.eqb s "" then dflt else s.

(** Library functions whose text-level behaviour the handler relies on but
    does not define. *)
Class PyBuiltins := {
  (** ["{}".format(x)] for a number *)
  format_num : pyval → string;
  (** [str.strip] *)
  strip : string → string;
  (** [int(s)] on a string; [None] is [ValueError] *)
  int_of_str : string → option Z;
  (** [traceback.format_exc()] while handling [e] *)
  format_exc : exn → string
}.

(** *** The world the handler runs in *)

(** Calls made on the environment, in the order they are made. *)
Inductive call :=
  | COpen (path mode : string)
  | CWrite (path : string) (data : pyval)
  | CPopen (argv : list string)
  | CCommunicate (timeout : option pyval)
  | CKill
  | CTime
  | CPs
  | CPrint (text : string).

Record World := {
  (** regular files, path to content *)
  fs : gmap string string;
  (** how many times [time.time()] has been read *)
  clock_reads : nat;
  calls : list call
}.

(** A launched child: the program text and the standard input it was
    started on, as they were in the file system at launch. *)
Record process := {
  p_source : option string;
  p_stdin : string
}.

(** What the environment answers. *)
Record Oracle := {
  (** [open(path, mode)] failing *)
  open_fault : string → string → option exn;
  (** [f.write] or the closing flush failing *)
  write_fault : string → option exn;
  (** [subprocess.Popen] failing to launch *)
  popen_fault : option exn;
  (** [communicate(timeout=t)] on a child running [source] on [stdin]:
      the decoded streams and the return code, or the exception raised;
      an expired deadline is an exception of class [TimeoutExpired] *)
  child : option string → string → pyval → result (string * string * Z);
  (** [process.kill()] failing *)
  kill_fault : option exn;
  (** [process.communicate()] after the kill failing *)
  drain_fault : option exn;
  (** successive readings of [time.time()] *)
  wall : nat → Q;
  (** [os.popen('ps -o rss= -p <pid>').read()] *)
  ps_read : result string
}.

(** *** State and exception monad *)

Definition M (A : Type) : Type := World → result A * World.

Definition ret {A} (a : A) : M A := fun w => (Ok a, w).

Definition raise {A} (e : exn) : M A := fun w => (Raise e, w).

Definition bind {A B} (m : M A) (k : A → M B) : M B :=
  fun w => match m w with
           | (Ok a, w') => k a w'
           | (Raise e, w') => (Raise e, w')
           end.

Declare Scope py_scope.
Delimit Scope py_scope with py.
Notation "x <- m ;; k" := (bind m (fun x => k))
  (at level 100, m at next level, right associativity) : py_scope.
Notation "m ;;; k" := (bind m (fun _ => k))
  (at level 100, right associativity) : py_scope.
Local Open Scope py_scope.

(** [try: body  except: handler]; every exception of the model is caught,
    which is what both a bare [except:] and [except Exception] do here. *)
Definition try_except {A} (body : M A) (handler : exn → M A) : M A :=
  fun w => match body w with
           | (Ok a, w') => (Ok a, w')
           | (Raise e, w') => handler e w'
           end.

(** [try: x = first; rest(x)  except C: handler]: a [try] block whose first
    statement binds a local that the handler reads.  The handler receives
    the local if it was bound when the exception was raised; an exception
    that is not of class [C] propagates. *)
Definition try_local {L A} (first : M L) (rest : L → M A)
    (catches : exn → bool) (handler : option L → M A) : M A :=
  fun w => match first w with
           | (Raise e, w1) =>
               if catches e then handler None w1 else (Raise e, w1)
           | (Ok x, w1) =>
               match rest x w1 with
               | (Ok a, w2) => (Ok a, w2)
               | (Raise e, w2) =>
                   if catches e then handler (Some x) w2 else (Raise e, w2)
               end
           end.

Definition lift {A} (r : result A) : M A := fun w => (r, w).

Definition fault (f : option exn) : M unit :=
  match f with
  | Some e => raise e
  | None => ret tt
  end.

Definition record (c : call) : M unit :=
  fun w => (Ok tt, {| fs := fs w; clock_reads := clock_reads w;
                      calls := calls w ++ [c] |}).

Definition set_file (path content : string) : M unit :=
  fun w => (Ok tt, {| fs := <[path := content]> (fs w);
                      clock_reads := clock_reads w; calls := calls w |}).

Definition get_file (path : string) : M (option string) :=
  fun w => (Ok (fs w !! path), w).

(** *** Environment primitives *)

Definition code_path : string := "/tmp/code.py".
Definition input_path : string := "/tmp/input.txt".

Record response := {
  status : string;
  output : string;
  execution_time_ms : pyval;
  memory_used_kb : Z
}.

Section Handler.

Context `{PyBuiltins} (o : Oracle).

(** [open(path, "w")]: creates or truncates the file. *)
Definition open_w (path : string) : M unit :=
  record (COpen path "w") ;;;
  fault (open_fault o path "w") ;;;
  set_file path "".

(** How the [TypeError] of [write] names its argument: [None] by its
    name, any other object by its type. *)
Definition arg_name (v : pyval) : string :=
  match v with
  | PNone => "None"
  | _ => type_name v
  end.

(** [f.write(data)] followed by the close at the end of the [with] block. *)
Definition f_write (path : string) (data : pyval) : M unit :=
  record (CWrite path data) ;;;
  match data with
  | PStr text =>
      fault (write_fault o path) ;;;
      set_file path text
  | _ => raise (Exn TypeError
                  ("write() argument must be str, not " +:+ arg_name data))
  end.

(** [with open(path, "w") as f: f.write(data)] *)
Definition write_file (path : string) (data : pyval) : M unit :=
  open_w path ;;;
  f_write path data.

(** [open(path, "r")], giving what the reader will see. *)
Definition open_r (path : string) : M string :=
  record (COpen path "r") ;;;
  fault (open_fault o path "r") ;;;
  content <- get_file path ;;
  match content with
  | Some text => ret text
  | None => raise (Exn OSError
                     ("[Errno 2] No such file or directory: '" +:+ path +:+ "'"))
  end.

(** [subprocess.Popen(["python3", "/tmp/code.py"], stdin=open("/tmp/input.txt", "r"), ...)] *)
Definition Popen : M process :=
  stdin <- open_r input_path ;;
  record (CPopen ["python3"; code_path]) ;;;
  fault (popen_fault o) ;;;
  source <- get_file code_path ;;
  ret {| p_source := source; p_stdin := stdin |}.

(** [process.communicate(timeout=t)] *)
Definition communicate (p : process) (t : pyval) : M (string * string * Z) :=
  record (CCommunicate (Some t)) ;;;
  lift (child o (p_source p) (p_stdin p) t).

(** [process.kill()] *)
Definition kill (p : process) : M unit :=
  record CKill ;;;
  fault (kill_fault o).

(** [process.communicate()] after the kill; the streams are discarded. *)
Definition drain (p : process) : M unit :=
  record (CCommunicate None) ;;;
  fault (drain_fault o).

(** [time.time()] *)
Definition time_time : M Q :=
  fun w => (Ok (wall o (clock_reads w)),
            {| fs := fs w; clock_reads := S (clock_reads w);
               calls := calls w ++ [CTime] |}).

(** [int(os.popen('ps -o rss= -p %d' % os.getpid()).read().strip() or '0')] *)
Definition sample_rss : M Z :=
  record CPs ;;;
  text <- lift (ps_read o) ;;
  let digits := str_or (strip text) "0" in
  match int_of_str digits with
  | Some n => ret n
  | None => raise (Exn ValueError
                     ("invalid literal for int() with base 10: '" +:+ digits +:+ "'"))
  end.

(** [print(text)] *)
Definition print (text : string) : M unit := record (CPrint text).

(** *** lambda_handler *)

(** The [except subprocess.TimeoutExpired] block.  [process] is unbound when
    the exception came before the assignment. *)
Definition on_timeout (time_limit_ms execution_timeout : pyval)
    (process : option process) : M response :=
  try_except
    (match process with
     | Some p => kill p ;;; drain p
     | None => raise (Exn UnboundLocalError
                 "cannot access local variable 'process' where it is not associated with a value")
     end)
    (fun _ => ret tt) ;;;
  ret {| status := "time_limit_exceeded";
         output := "Execution timed out after " +:+ format_num execution_timeout
                   +:+ " seconds";
         execution_time_ms := time_limit_ms;
         memory_used_kb := 0 |}.

(** The inner [try] block after the child has been launched. *)
Definition supervise (execution_timeout : pyval) (start_time : Q)
    (p : process) : M response :=
  streams <- communicate p execution_timeout ;;
  let '(stdout, stderr, returncode) := streams in
  now <- time_time ;;
  let execution_time := elapsed_ms start_time now in
  memory_used <- try_except sample_rss (fun _ => ret 0) ;;
  let '(status, output) :=
    if returncode =? 0 then ("success", stdout) else ("runtime_error", stderr) in
  ret {| status := status; output := output;
         execution_time_ms := PInt execution_time;
         memory_used_kb := memory_used |}.

(** The body of the outer [try]. *)
Definition handler_body (event : pyval) : M response :=
  code <- lift (dict_get event "code" (PStr "")) ;;
  input_data <- lift (dict_get event "input" (PStr "")) ;;
  time_limit_ms <- lift (dict_get event "time_limit_ms" (PInt 10000)) ;;
  if negb (truthy code)
  then ret {| status := "compilation_error"; output := "No code provided";
              execution_time_ms := PInt 0; memory_used_kb := 0 |}
  else
    execution_timeout <- lift (execution_timeout time_limit_ms) ;;
    write_file code_path code ;;;
    write_file input_path input_data ;;;
    start_time <- time_time ;;
    try_local Popen (supervise execution_timeout start_time)
      is_TimeoutExpired (on_timeout time_limit_ms execution_timeout).

(** The [except Exception as e] block. *)
Definition on_exception (e : exn) : M response :=
  let error_message := format_exc e in
  print ("Error executing code: " +:+ error_message) ;;;
  ret {| status := "compilation_error"; output := exn_str e;
         execution_time_ms := PInt 0; memory_used_kb := 0 |}.

Definition lambda_handler (event : pyval) : M response :=
  try_except (handler_body event) on_exception.

(** *** Two invocations over one file system

    Every invocation works on the same two paths.  Its handler opens and
    writes the code file, opens and writes the input file, and launches the
    child with the input file as standard input.  The child does its reading
    after the launch, while the handler waits in [communicate]: the
    interpreter opens and reads the code file, then the program reads its
    standard input.  [advance] runs the next of these seven steps of one
    invocation; [interleave] runs two invocations under a schedule ([false]:
    the first advances, [true]: the second). *)

Inductive stage :=
  | AtOpenCode
  | AtWriteCode
  | AtOpenInput
  | AtWriteInput
  | AtLaunch
  | ChildStarted
  | ChildLoaded (source : option string)
  | ChildRan (p : process)
  | Faulted (e : exn).

Record invocation := {
  inv_code : pyval;
  inv_input : pyval;
  inv_stage : stage
}.

Definition at_stage (inv : invocation) (s : stage) : invocation :=
  {| inv_code := inv_code inv; inv_input := inv_input inv; inv_stage := s |}.

Definition arrive (code input : pyval) : invocation :=
  {| inv_code := code; inv_input := input; inv_stage := AtOpenCode |}.

(** A step of the handler: on to [next], or the exception it raised. *)
Definition handler_step {A} (inv : invocation) (m : M A) (next : stage)
  : World → invocation * World :=
  fun w =>
    match m w with
    | (Ok _, w') => (at_stage inv next, w')
    | (Raise e, w') => (at_stage inv (Faulted e), w')
    end.

(** The two steps of the child read the files as they are when the step is
    taken.  Its standard input is the descriptor opened at the launch; the
    file behind it is there, nothing in this model removes a file. *)
Definition advance (inv : invocation) : World → invocation * World :=
  fun w =>
    match inv_stage inv with
    | AtOpenCode => handler_step inv (open_w code_path) AtWriteCode w
    | AtWriteCode =>
        handler_step inv (f_write code_path (inv_code inv)) AtOpenInput w
    | AtOpenInput => handler_step inv (open_w input_path) AtWriteInput w
    | AtWriteInput =>
        handler_step inv (f_write input_path (inv_input inv)) AtLaunch w
    | AtLaunch => handler_step inv Popen ChildStarted w
    | ChildStarted => (at_stage inv (ChildLoaded (fs w !! code_path)), w)
    | ChildLoaded source =>
        (at_stage inv
           (ChildRan {| p_source := source;
                        p_stdin := default "" (fs w !! input_path) |}), w)
    | ChildRan _ | Faulted _ => (inv, w)
    end.

Fixpoint interleave (schedule : list bool) (a b : invocation) (w : World)
  : invocation * invocation * World :=
  match schedule with
  | [] => (a, b, w)
  | false :: rest => let '(a', w') := advance a w in interleave rest a' b w'
  | true :: rest => let '(b', w') := advance b w in interleave rest a b' w'
  end.

(** One invocation taking [steps] steps with nothing in between. *)
Fixpoint run_alone (steps : nat) (inv : invocation) (w : World)
  : invocation * World :=
  match steps with
  | O => (inv, w)
  | S n => let '(inv', w') := advance inv w in run_alone n inv' w'
  end.

(** From the first open to the end of the child's reading. *)
Definition uninterrupted (inv : invocation) (w : World) : invocation * World :=
  run_alone 7 inv w.

(** The invocation has come to its end: its child has done its reading, or
    the handler has met an exception. *)
Definition settled (inv : invocation) : Prop :=
  match inv_stage inv with
  | ChildRan _ | Faulted _ => True
  | _ => False
  end.

(** The child of the invocation reads this invocation's own files. *)
Definition reads_own_files (inv : invocation) : Prop :=
  ∀ p, inv_stage inv = ChildRan p →
       PStr (p_stdin p) = inv_input inv ∧
       PStr <$> p_source p = Some (inv_code inv).

(** The invocation has come to its end, its child on its own files. *)
Definition ends_well (inv : invocation) : Prop :=
  settled inv ∧ reads_own_files inv.

End Handler.

(** *** Derived notions used in the statements *)

(** The calls a computation adds to the log. *)
Definition new_calls {A} (m : M A) (w : World) : list call :=
  drop (length (calls w)) (calls (snd (m w))).

(** The request reaches [communicate]: the event is a dict with a non-empty
    string [code], a string [input] and a numeric [time_limit_ms], and
    neither the workspace writes nor the launch fail. *)
Record launches (o : Oracle) (event : pyval) (code input : string)
    (time_limit_ms timeout : pyval) : Prop := {
  l_code : dict_get event "code" (PStr "") = Ok (PStr code);
  l_nonempty : code ≠ "";
  l_input : dict_get event "input" (PStr "") = Ok (PStr input);
  l_limit : dict_get event "time_limit_ms" (PInt 10000) = Ok time_limit_ms;
  l_timeout : execution_timeout time_limit_ms = Ok timeout;
  l_open_code : open_fault o code_path "w" = None;
  l_write_code : write_fault o code_path = None;
  l_open_input : open_fault o input_path "w" = None;
  l_write_input : write_fault o input_path = None;
  l_read_input : open_fault o input_path "r" = None;
  l_popen : popen_fault o = None
}.

(** Both workspace writes go through: the event is a dict with a non-empty
    string [code], a string [input] and a numeric [time_limit_ms], and
    neither file fails to open or to be written. *)
Record writes_workspace (o : Oracle) (event : pyval) (code input : string)
    : Prop := {
  ww_code : dict_get event "code" (PStr "") = Ok (PStr code);
  ww_nonempty : code ≠ "";
  ww_input : dict_get event "input" (PStr "") = Ok (PStr input);
  ww_limit : ∃ time_limit_ms timeout,
      dict_get event "time_limit_ms" (PInt 10000) = Ok time_limit_ms ∧
      execution_timeout time_limit_ms = Ok timeout;
  ww_open_code : open_fault o code_path "w" = None;
  ww_write_code : write_fault o code_path = None;
  ww_open_input : open_fault o input_path "w" = None;
  ww_write_input : write_fault o input_path = None
}.

(** The same environment with another answer of [ps]. *)
Definition with_ps (o : Oracle) (answer : result string) : Oracle :=
  {| open_fault := open_fault o; write_fault := write_fault o;
     popen_fault := popen_fault o; child := child o;
     kill_fault := kill_fault o; drain_fault := drain_fault o;
     wall := wall o; ps_read := answer |}.

(** Sampling the resident memory fails: [ps] cannot be read, or what it
    printed is not an integer. *)
Definition sampling_fails `{PyBuiltins} (o : Oracle) : Prop :=
  match ps_read o with
  | Raise _ => True
  | Ok text => int_of_str (str_or (strip text) "0") = None
  end.

Definition statuses : list string :=
  ["success"; "runtime_error"; "time_limit_exceeded"; "compilation_error"].

(** How many children a log shows being launched. *)
Fixpoint launches_in (log : list call) : nat :=
  match log with
  | [] => 0
  | CPopen _ :: rest => S (launches_in rest)
  | _ :: rest => launches_in rest
  end.

(** The calls of the handler up to and including the launch, for a request
    with the strings [code] and [input]. *)
Definition launch_calls (code input : string) : list call :=
  [COpen code_path "w"; CWrite code_path (PStr code);
   COpen input_path "w"; CWrite input_path (PStr input);
   CTime; COpen input_path "r"; CPopen ["python3"; code_path]].

(** *** Concrete environments for examples *)

Fixpoint digits_value (s : string) (acc : Z) : option Z :=
  match s with
  | EmptyString => Some acc
  | String c rest =>
      let n := Z.of_nat (Ascii.nat_of_ascii c) in
      if (48 <=? n) && (n <=? 57)
      then digits_value rest (10 * acc + (n - 48))
      else None
  end.

(** One choice of the library functions, enough to run examples: integers
    print in decimal, other numbers as a fraction, [strip] finds nothing to
    strip, [int] reads unsigned decimal digits. *)
Definition ascii_builtins : PyBuiltins :=
  {| format_num := fun v =>
       match v with
       | PInt z => pretty z
       | PFloat q => pretty (Qnum q) +:+ "/" +:+ pretty (Zpos (Qden q))
       | _ => type_name v
       end;
     strip := fun s => s;
     int_of_str := fun s =>
       match s with
       | EmptyString => None
       | _ => digits_value s 0
       end;
     format_exc := exn_str |}.

(** An environment without faults whose clock advances eight seconds per
    reading and whose child behaves as [run]. *)
Definition calm (run : option string → string → pyval → result (string * string * Z))
  : Oracle :=
  {| open_fault := fun _ _ => None; write_fault := fun _ => None;
     popen_fault := None; child := run;
     kill_fault := None; drain_fault := None;
     wall := fun n => inject_Z (8 * Z.of_nat n);
     ps_read := Ok "5120" |}.

(** A child that copies its standard input to its standard output. *)
Definition echo_child (source : option string) (stdin : string) (t : pyval)
  : result (string * string * Z) := Ok (stdin, "", 0).

(** A child that is still running at the deadline. *)
Definition looping_child (source : option string) (stdin : string) (t : pyval)
  : result (string * string * Z) :=
  Raise (Exn TimeoutExpired "Command '['python3', '/tmp/code.py']' timed out").

(** A child whose output cannot be decoded. *)
Definition garbled_child (source : option string) (stdin : string) (t : pyval)
  : result (string * string * Z) :=
  Raise (Exn OtherException "'utf-8' codec can't decode byte 0xff").

(** An environment in which the interpreter is not installed. *)
Definition no_interpreter : Oracle :=
  {| open_fault := fun _ _ => None; write_fault := fun _ => None;
     popen_fault :=
       Some (Exn OSError "[Errno 2] No such file or directory: 'python3'");
     child := echo_child; kill_fault := None; drain_fault := None;
     wall := fun n => inject_Z (Z.of_nat n); ps_read := Ok "5120" |}.

Definition boot : World := {| fs := ∅; clock_reads := 0; calls := [] |}.

Definition request (code input : string) : pyval :=
  PDict (<["code" := PStr code]> (<["input" := PStr input]> ∅)).

End Executor.

(** ** median_of_two_sorted_arrays

    [src/backend/internal/ai/test.py].  The elements are Python integers;
    the float it returns is idealised as an exact rational, as above. *)

Module Median.

(** [sorted(l)] on integers. *)
Definition sorted (l : list Z) : list Z := merge_sort Z.le l.

(** [l[i]], with Python's negative indices counting from the end; [None]
    is [IndexError]. *)
Definition py_index (l : list Z) (i : Z) : option Z :=
  let n := Z.of_nat (length l) in
  if 0 <=? i then l !! Z.to_nat i
  else if - n <=? i then l !! Z.to_nat (n + i)
  else None.

Definition median_of_two_sorted_arrays (nums1 nums2 : list Z) : option Q :=
  let merged_array := sorted (nums1 ++ nums2) in
  let n := Z.of_nat (length merged_array) in
  if n mod 2 =? 0 then
    mid1 ← py_index merged_array (n / 2 - 1);
    mid2 ← py_index merged_array (n / 2);
    Some ((mid1 + mid2) # 2)
  else
    mid ← py_index merged_array (n / 2);
    Some (inject_Z mid).

End Median.

(** * Properties *)

(** ** twoSum *)

Section TwoSumCorrect.

Import TwoSum.

Implicit Types (nums pre rest : list Z) (seen : gmap Z nat) (target : Z).

(** What the loop maintains about the part [pre] of the list it has passed:
    [seen] sends exactly the values of [pre] to positions holding them, and
    no pair inside [pre] adds up to [target]. *)
Record loop_inv pre seen target : Prop := {
  seen_sound : ∀ v j, seen !! v = Some j → pre !! j = Some v;
  seen_complete : ∀ j v, pre !! j = Some v → is_Some (seen !! v);
  no_pair_yet : ∀ i j, ¬ is_pair pre target i j
}.

Lemma loop_inv_init target : loop_inv [] ∅ target.
Proof.
  split.
  - intros v j Hv. by rewrite lookup_empty in Hv.
  - intros j v Hj. by rewrite lookup_nil in Hj.
  - intros i j (_ & a & b & Ha & _). by rewrite lookup_nil in Ha.
Qed.

Lemma loop_inv_step pre seen target num :
  loop_inv pre seen target →
  seen !! (target - num) = None →
  loop_inv (pre ++ [num]) (<[num := length pre]> seen) target.
Proof.
  intros [Hs Hc Hn] Hnone. split.
  - intros v j. rewrite lookup_insert. case_decide as Hv.
    + intros [= <-]. subst v. by rewrite list_lookup_middle.
    + intros Hj. apply Hs in Hj. rewrite lookup_app_l; [done|].
      by eapply lookup_lt_Some.
  - intros j v Hj. rewrite lookup_insert. case_decide; [by eexists|].
    apply lookup_app_Some in Hj as [Hj | [Hlen Hj]]; [by eapply Hc|].
    apply list_lookup_singleton_Some in Hj as [_ ->]. done.
  - intros i j (Hij & a & b & Ha & Hb & Hsum).
    apply lookup_app_Some in Hb as [Hb | [Hlen Hb]].
    + apply (Hn i j). split; [done|]. exists a, b. split_and!; [|done..].
      apply lookup_app_Some in Ha as [Ha | [Hlen _]]; [done|].
      apply lookup_lt_Some in Hb. lia.
    + apply list_lookup_singleton_Some in Hb as [Hj ->].
      apply lookup_app_Some in Ha as [Ha | [Hlen' _]]; [|lia].
      apply Hc in Ha as [k Hk].
      replace a with (target - b) in Hk by lia. congruence.
Qed.

Lemma twoSum_loop_spec rest : ∀ pre seen target,
  loop_inv pre seen target →
  let r := twoSum_loop seen (length pre) rest target in
  (r = [] ∧ ∀ i j, ¬ is_pair (pre ++ rest) target i j) ∨
  (∃ i j, r = [i; j] ∧ is_pair (pre ++ rest) target i j).
Proof.
  induction rest as [|num rest IH]; intros pre seen target Hinv; simpl.
  - left. split; [done|]. rewrite app_nil_r. apply Hinv.
  - destruct (seen !! (target - num)) as [j|] eqn:Hseen.
    + right. exists j, (length pre). split; [done|].
      pose proof (seen_sound _ _ _ Hinv _ _ Hseen) as Hj.
      split; [by eapply lookup_lt_Some|].
      exists (target - num), num. split_and!.
      * by apply lookup_app_l_Some.
      * by rewrite list_lookup_middle.
      * lia.
    + pose proof (IH _ _ _ (loop_inv_step _ _ _ _ Hinv Hseen)) as Hrec.
      rewrite length_app, Nat.add_1_r, <- app_assoc in Hrec. exact Hrec.
Qed.

(** C10: [twoSum nums target] is non-empty exactly when two distinct
    positions of [nums] hold values that add up to [target], and a non-empty
    result is such a pair [[i; j]] of valid positions with [i < j]. *)
Theorem twoSum_correct nums target :
  (twoSum nums target ≠ [] ↔ ∃ i j, is_pair nums target i j) ∧
  (twoSum nums target ≠ [] →
   ∃ i j a b, twoSum nums target = [i; j] ∧
     (i < j < length nums)%nat ∧
     nums !! i = Some a ∧ nums !! j = Some b ∧ a + b = target).
Proof.
  pose proof (twoSum_loop_spec nums [] ∅ target (loop_inv_init target)) as Hspec.
  simpl in Hspec. fold (twoSum nums target) in Hspec.
  destruct Hspec as [[Hnil Hnone] | (i & j & Hr & Hpair)].
  - split.
    + split; [congruence|]. intros (i & j & Hp). by destruct (Hnone i j).
    + congruence.
  - split.
    + split; [by eauto|]. rewrite Hr. done.
    + intros _. destruct Hpair as (Hij & a & b & Ha & Hb & Hsum).
      exists i, j, a, b. split_and!; try done.
      by eapply lookup_lt_Some.
Qed.


(** *** Which pair is returned *)

(** [seen] keeps, for each value, the last position of [pre] holding it. *)
Definition seen_last pre seen : Prop :=
  ∀ v j j', seen !! v = Some j → pre !! j' = Some v → (j' ≤ j)%nat.

Lemma seen_last_init : seen_last [] ∅.
Proof. intros v j j' Hv. by rewrite lookup_empty in Hv. Qed.

Lemma seen_last_step pre seen num :
  seen_last pre seen → seen_last (pre ++ [num]) (<[num := length pre]> seen).
Proof.
  intros Hlast v j j'. rewrite lookup_insert. case_decide as Hv.
  - intros [= <-] Hj'. apply lookup_lt_Some in Hj'.
    rewrite length_app in Hj'. simpl in Hj'. lia.
  - intros Hj Hj'. apply lookup_app_Some in Hj' as [Hj' | [_ Hj']].
    + by eapply Hlast.
    + apply list_lookup_singleton_Some in Hj' as [_ ->]. done.
Qed.

Lemma is_pair_in_prefix pre rest target i j :
  is_pair (pre ++ rest) target i j → (j < length pre)%nat →
  is_pair pre target i j.
Proof.
  intros (Hij & a & b & Ha & Hb & Hsum) Hj. split; [done|].
  exists a, b. rewrite lookup_app_l in Ha by lia.
  by rewrite lookup_app_l in Hb by lia.
Qed.

Lemma twoSum_loop_first rest : ∀ pre seen target i j,
  loop_inv pre seen target → seen_last pre seen →
  twoSum_loop seen (length pre) rest target = [i; j] →
  (∀ i' j', is_pair (pre ++ rest) target i' j' → (j ≤ j')%nat) ∧
  (∀ i', is_pair (pre ++ rest) target i' j → (i' ≤ i)%nat).
Proof.
  induction rest as [|num rest IH]; intros pre seen target i j Hinv Hlast;
    simpl; [done|].
  destruct (seen !! (target - num)) as [k|] eqn:Hseen.
  - intros [= -> <-]. split.
    + intros i' j' Hpair. destruct (decide (j' < length pre)%nat); [|lia].
      destruct (no_pair_yet _ _ _ Hinv i' j').
      by eapply is_pair_in_prefix.
    + intros i' (Hlt & a & b & Ha & Hb & Hsum).
      rewrite list_lookup_middle in Hb by done. simplify_eq.
      rewrite lookup_app_l in Ha by lia.
      eapply Hlast; [exact Hseen|].
      by replace (a + b - b) with a by lia.
  - intros Hrun.
    pose proof (IH (pre ++ [num])%list (<[num := length pre]> seen) target i j
                  (loop_inv_step _ _ _ _ Hinv Hseen)
                  (seen_last_step _ _ _ Hlast)) as Hrec.
    rewrite length_app, Nat.add_1_r, <- app_assoc in Hrec. by apply Hrec.
Qed.

(** The pair returned is the first one the scan can close: no pair of
    positions adding up to [target] ends before [j], and among the pairs
    ending at [j] the returned [i] is the last possible one. *)
Theorem twoSum_returns_first_closing_pair nums target i j :
  twoSum nums target = [i; j] →
  (∀ i' j', is_pair nums target i' j' → (j ≤ j')%nat) ∧
  (∀ i', is_pair nums target i' j → (i' ≤ i)%nat).
Proof.
  intros Hrun.
  by apply (twoSum_loop_first nums [] ∅ target i j
              (loop_inv_init target) seen_last_init).
Qed.

(** When exactly one pair of positions adds up to [target], that pair is
    what [twoSum] returns. *)
Theorem twoSum_finds_unique_pair nums target i j :
  is_pair nums target i j →
  (∀ i' j', is_pair nums target i' j' → i' = i ∧ j' = j) →
  twoSum nums target = [i; j].
Proof.
  intros Hpair Huniq.
  pose proof (twoSum_loop_spec nums [] ∅ target (loop_inv_init target)) as Hspec.
  simpl in Hspec. fold (twoSum nums target) in Hspec.
  destruct Hspec as [[_ Hnone] | (i' & j' & -> & Hfound)].
  - by destruct (Hnone i j).
  - by destruct (Huniq i' j' Hfound) as [-> ->].
Qed.

(** A list with fewer than two elements has no pair: the result is empty. *)
Theorem twoSum_short_list nums target :
  (length nums < 2)%nat → twoSum nums target = [].
Proof.
  destruct nums as [|a [|b rest]]; simpl; intros Hlen; [done| |lia].
  unfold twoSum. simpl. by rewrite lookup_empty.
Qed.

Lemma twoSum_loop_app rest extra : ∀ seen i target,
  twoSum_loop seen i rest target ≠ [] →
  twoSum_loop seen i (rest ++ extra) target = twoSum_loop seen i rest target.
Proof.
  induction rest as [|num rest IH]; intros seen i target; simpl; [done|].
  destruct (seen !! (target - num)); [done|]. apply IH.
Qed.

(** The scan stops at the first pair it closes: once [twoSum] finds a pair
    in [nums], appending further elements does not change the answer. *)
Theorem twoSum_answer_stable_under_append nums extra target :
  twoSum nums target ≠ [] →
  twoSum (nums ++ extra) target = twoSum nums target.
Proof. apply twoSum_loop_app. Qed.

End TwoSumCorrect.

(** ** The handler *)

Section HandlerFacts.

Import Executor.

Context `{PyBuiltins}.

Implicit Types (o : Oracle) (w : World) (event : pyval) (e : exn).

(** *** Running the handler symbolically *)

(** Unfolds the handler down to the answers of the environment. *)
Ltac expose :=
  unfold lambda_handler, on_exception, handler_body, supervise, on_timeout,
    sample_rss, print, time_time, communicate, kill, drain, Popen, open_r,
    write_file, f_write, open_w, try_local, try_except, bind, lift, fault,
    record, set_file, get_file, raise, ret, with_ps in *.

Ltac reduce :=
  cbn [fst snd fs calls clock_reads open_fault write_fault popen_fault child
       kill_fault drain_fault wall ps_read p_source p_stdin negb
       status output execution_time_ms memory_used_kb] in *.

(** Takes the next branch of the run: a case analysis on the innermost
    answer that the run waits for. *)
Ltac branch :=
  match goal with
  | |- context [match ?s with _ => _ end] =>
      lazymatch s with
      | context [match _ with _ => _ end] => fail
      | _ => destruct s eqn:?
      end
  | _ : context [match ?s with _ => _ end] |- _ =>
      lazymatch s with
      | context [match _ with _ => _ end] => fail
      | _ => destruct s eqn:?
      end
  end; reduce.

Ltac run := expose; reduce; repeat branch.

Lemma paths_differ : input_path ≠ code_path.
Proof. discriminate. Qed.

(** *** Every path ends in a response *)

Lemma handler_body_status o event w r w' :
  handler_body o event w = (Ok r, w') → status r ∈ statuses.
Proof.
  intros Hrun. run; simplify_eq; reduce; unfold statuses; set_solver.
Qed.

Lemma on_exception_response e w :
  ∃ w', on_exception e w =
        (Ok {| status := "compilation_error"; output := exn_str e;
               execution_time_ms := PInt 0; memory_used_kb := 0 |}, w').
Proof. expose. eauto. Qed.


(** *** The path through a launched child *)

Lemma nonempty_truthy (code : string) : code ≠ "" → truthy (PStr code) = true.
Proof.
  intros Hne. simpl. apply negb_true_iff. by apply String.eqb_neq.
Qed.

(** Runs the handler up to [communicate] on a request that [launches]. *)
Ltac launch Hl :=
  let Hne := fresh "Hne" in
  destruct Hl as [Hcode Hne Hinput Hlimit Htimeout ? ? ? ? ? ?];
  apply nonempty_truthy in Hne;
  expose; reduce;
  rewrite ?Hcode, ?Hinput, ?Hlimit; reduce;
  rewrite ?Hne; reduce;
  rewrite ?Htimeout; reduce;
  repeat match goal with
         | Hf : _ = None |- _ => rewrite !Hf; reduce
         end;
  rewrite ?lookup_insert_eq; reduce;
  rewrite ?(lookup_insert_ne _ _ _ _ paths_differ), ?lookup_insert_eq; reduce.

(** C1: when the request reaches [communicate] and the child completes
    before the deadline with streams [out], [err] and return code [rc], the
    status is decided by [rc] alone: "success" with the captured stdout for
    0, "runtime_error" with the captured stderr otherwise. *)
Theorem completed_status_by_exit_code o event w code input tl t out err rc :
  launches o event code input tl t →
  child o (Some code) input t = Ok (out, err, rc) →
  ∃ r w', lambda_handler o event w = (Ok r, w') ∧
    (rc = 0 → status r = "success" ∧ output r = out) ∧
    (rc ≠ 0 → status r = "runtime_error" ∧ output r = err).
Proof.
  intros Hl Hchild. launch Hl. rewrite Hchild; reduce.
  destruct (Z.eqb_spec rc 0) as [Hrc|Hrc]; repeat branch;
    (eexists _, _; split; [reflexivity|]; reduce; split; intros; done).
Qed.

(** C2: when the [code] entry of the event is empty or absent (or any other
    false value) the handler answers "compilation_error" with zeroed metrics
    and leaves the world as it found it: no file is written and no call is
    made on the environment, whatever [input] and [time_limit_ms] are. *)
Theorem empty_code_short_circuit o (d : gmap string pyval) w :
  truthy (default (PStr "") (d !! "code")) = false →
  lambda_handler o (PDict d) w =
    (Ok {| status := "compilation_error"; output := "No code provided";
           execution_time_ms := PInt 0; memory_used_kb := 0 |}, w).
Proof.
  intros Hfalsy. expose; reduce. unfold dict_get. by rewrite Hfalsy.
Qed.


(** *** The timeout handed to [communicate] *)

Lemma py_min_clamped (x : Q) :
  ∃ q, num_val (py_min x 8) = Some q ∧ (q == Qmin x 8)%Q ∧ (q <= 8)%Q.
Proof.
  unfold py_min. destruct (Qle_bool x (inject_Z 8)) eqn:Hle.
  - apply Qle_bool_iff in Hle. exists x. split_and!; [done| |done].
    symmetry. by apply Q.min_l.
  - assert (8 <= x)%Q as Hge.
    { apply Qnot_lt_le. intros Hlt. apply Qlt_le_weak, Qle_bool_iff in Hlt.
      change (inject_Z 8) with 8%Q in Hle. congruence. }
    exists 8%Q. split_and!; [done| |apply Qle_refl].
    symmetry. by apply Q.min_r.
Qed.

(** The calls of a finished run, read off the log. *)
Ltac read_log Hin :=
  rewrite <- ?app_assoc in Hin;
  rewrite ?drop_app_length, ?drop_all in Hin;
  set_unfold in Hin; destruct_or?; simplify_eq.


(** *** The reported execution time *)

(** Where the reported [execution_time_ms] comes from.  Only the
    "success" and "runtime_error" branches measure: the wall-clock time
    between the clock reading taken just before the launch and the one taken
    just after the child completed, in whole milliseconds.  The
    "time_limit_exceeded" branch does not read the clock again and hands
    back the [time_limit_ms] of the request; the "compilation_error"
    branches put the literal 0. *)
Lemma execution_time_by_branch o event w :
  ∃ r w', lambda_handler o event w = (Ok r, w') ∧
    (status r = "success" ∨ status r = "runtime_error" →
       execution_time_ms r =
         PInt (elapsed_ms (wall o (clock_reads w)) (wall o (S (clock_reads w))))) ∧
    (status r = "time_limit_exceeded" →
       dict_get event "time_limit_ms" (PInt 10000) = Ok (execution_time_ms r)) ∧
    (status r = "compilation_error" → execution_time_ms r = PInt 0).
Proof.
  run; (eexists _, _; split; [reflexivity|]); reduce.
  all: split_and!; intros; destruct_or?; try discriminate; done.
Qed.

(** *** The workspace files *)

(** C8 (amended): the handler has no cleanup step, and nothing it does
    removes a file.  As far as the handler's own actions go, whatever was
    present when the invocation started is present when it returns; and on
    every exit path reached after both workspace writes went through
    (success, runtime error, timeout, a failure to open the input for
    reading or to launch, a failure of [communicate]) it leaves the two
    files holding the code and the input of this invocation. *)
Theorem workspace_never_removed o event w :
  (∀ path, is_Some (fs w !! path) →
           is_Some (fs (snd (lambda_handler o event w)) !! path)) ∧
  (∀ code input, writes_workspace o event code input →
     fs (snd (lambda_handler o event w)) =
       <[input_path := input]> (<[code_path := code]> (fs w))).
Proof.
  split.
  - intros path Hpath. run.
    all: rewrite ?lookup_insert; repeat case_decide; eauto.
  - intros code input
      [Hcode Hne Hinput (tl & t & Hlimit & Htimeout) Hoc Hwc Hoi Hwi].
    apply nonempty_truthy in Hne. expose; reduce.
    rewrite Hcode, Hinput, Hlimit; reduce. rewrite Hne; reduce.
    rewrite Htimeout; reduce. rewrite Hoc; reduce. rewrite Hwc; reduce.
    rewrite Hoi; reduce. rewrite Hwi; reduce.
    repeat branch.
    all: by rewrite !insert_insert_eq.
Qed.

(** *** Memory sampling *)

(** C9: when sampling the resident memory fails, the response carries
    [memory_used_kb = 0], and its status, output and execution time are the
    ones the handler gives under any other answer of [ps], failing or not:
    the sampling failure changes nothing else. *)
Theorem memory_sampling_is_advisory o event w answer :
  sampling_fails o →
  ∃ r w1 r' w1',
    lambda_handler o event w = (Ok r, w1) ∧
    lambda_handler (with_ps o answer) event w = (Ok r', w1') ∧
    memory_used_kb r = 0 ∧
    status r = status r' ∧ output r = output r' ∧
    execution_time_ms r = execution_time_ms r'.
Proof.
  unfold sampling_fails. expose; reduce.
  destruct (ps_read o) as [text|e]; intros Hfail; rewrite ?Hfail;
    repeat branch; eexists _, _, _, _; split_and!; reflexivity.
Qed.

(** *** Invocations sharing the file system *)

Ltac settle_files :=
  rewrite ?lookup_insert_eq, ?(lookup_insert_ne _ _ _ _ paths_differ),
    ?lookup_insert_eq.

Ltac at_stages :=
  cbn [inv_stage inv_code inv_input at_stage arrive fst snd].

(** The next answer of the environment that a step waits for. *)
Ltac branch_env :=
  match goal with
  | |- context [match ?s with _ => _ end] =>
      lazymatch s with
      | context [match _ with _ => _ end] => fail
      | context [advance] => fail
      | context [run_alone] => fail
      | _ => destruct s eqn:?
      end
  end; reduce; at_stages.

(** The next step of the invocation, once its stage is known. *)
Ltac next_step :=
  progress (unfold advance at 1; at_stages; unfold handler_step;
            expose; reduce; settle_files; reduce; at_stages).

Lemma uninterrupted_reads_own_files o (code input : pyval) w :
  ends_well (fst (uninterrupted o (arrive code input) w)).
Proof.
  unfold uninterrupted. cbn [run_alone].
  repeat first [branch_env | next_step].
  all: split; [done|]; intros p Hp; simplify_eq/=; settle_files; done.
Qed.

Lemma interleave_first_alone o (n : nat) : ∀ rest (a b : invocation) w,
  interleave o (replicate n false ++ rest) a b w =
    interleave o rest (fst (run_alone o n a w)) b (snd (run_alone o n a w)).
Proof.
  induction n as [|n IH]; intros rest a b w; simpl; [done|].
  destruct (advance o a w) as [a' w']. apply IH.
Qed.

Lemma interleave_second_alone o (n : nat) : ∀ rest (a b : invocation) w,
  interleave o (replicate n true ++ rest) a b w =
    interleave o rest a (fst (run_alone o n b w)) (snd (run_alone o n b w)).
Proof.
  induction n as [|n IH]; intros rest a b w; simpl; [done|].
  destruct (advance o b w) as [b' w']. apply IH.
Qed.

(** C7 (amended): the workspace is the fixed pair of paths [/tmp/code.py]
    and [/tmp/input.txt], the same for every invocation, and a child reads
    them after the launch, while its handler waits.  When two invocations
    run strictly one after the other, each going from its first open to the
    end of its child's reading without a step of the other in between, each
    comes to its end and its child runs the code and reads the input of its
    own request. *)
Theorem serial_invocations_read_own_files o (first : bool)
    (code_a input_a code_b input_b : pyval) w :
  let schedule := (replicate 7 first ++ replicate 7 (negb first))%list in
  let '(a, b, _) :=
    interleave o schedule (arrive code_a input_a) (arrive code_b input_b) w in
  (settled a ∧ reads_own_files a) ∧ (settled b ∧ reads_own_files b).
Proof.
  destruct first; cbn [negb].
  - rewrite interleave_second_alone.
    rewrite <- (app_nil_r (replicate 7 false)), interleave_first_alone.
    cbn [interleave]. split; apply uninterrupted_reads_own_files.
  - rewrite interleave_first_alone.
    rewrite <- (app_nil_r (replicate 7 true)), interleave_second_alone.
    cbn [interleave]. split; apply uninterrupted_reads_own_files.
Qed.

(** *** Further behaviour of the handler *)

Ltac steps := repeat (settle_files; reduce; branch).


Lemma dict_get_insert_ne (d : gmap string pyval) (k k' : string) v dflt :
  k ≠ k' → dict_get (PDict (<[k := v]> d)) k' dflt = dict_get (PDict d) k' dflt.
Proof. intros Hne. unfold dict_get. by rewrite lookup_insert_ne. Qed.

Lemma dict_get_insert_default (d : gmap string pyval) (k : string) dflt :
  d !! k = None →
  dict_get (PDict (<[k := dflt]> d)) k dflt = dict_get (PDict d) k dflt.
Proof. intros Hk. unfold dict_get. by rewrite lookup_insert_eq, Hk. Qed.

(** An event without [input] and [time_limit_ms] is handled exactly as the
    same event with [input] = "" and [time_limit_ms] = 10000. *)
Theorem absent_keys_take_defaults o (d : gmap string pyval) w :
  d !! "input" = None →
  d !! "time_limit_ms" = None →
  lambda_handler o (PDict d) w =
  lambda_handler o
    (PDict (<["input" := PStr ""]> (<["time_limit_ms" := PInt 10000]> d))) w.
Proof.
  intros Hinput Hlimit. unfold lambda_handler, handler_body.
  rewrite !(dict_get_insert_ne _ "input" "code"),
    !(dict_get_insert_ne _ "time_limit_ms" "code") by done.
  rewrite (dict_get_insert_ne _ "input" "time_limit_ms") by done.
  rewrite (dict_get_insert_default _ "time_limit_ms") by done.
  rewrite (dict_get_insert_default _ "input")
    by by rewrite lookup_insert_ne.
  by rewrite (dict_get_insert_ne _ "time_limit_ms" "input").
Qed.

(** A [time_limit_ms] that is not a number is refused before the workspace
    is touched: the answer is "compilation_error" with the text of the
    [TypeError], no file is opened or written and nothing is launched; the
    only call is the [print] of the traceback. *)
Theorem non_numeric_limit_refused o (d : gmap string pyval) w limit :
  truthy (default (PStr "") (d !! "code")) = true →
  d !! "time_limit_ms" = Some limit →
  num_val limit = None →
  ∃ text,
    lambda_handler o (PDict d) w =
      (Ok {| status := "compilation_error";
             output := "unsupported operand type(s) for /: '"
                       +:+ type_name limit +:+ "' and 'int'";
             execution_time_ms := PInt 0; memory_used_kb := 0 |},
       {| fs := fs w; clock_reads := clock_reads w;
          calls := calls w ++ [CPrint text] |}).
Proof.
  intros Hcode Hlimit Hnum. expose; reduce. unfold dict_get.
  rewrite Hcode, Hlimit; reduce. unfold execution_timeout.
  destruct limit; try discriminate; cbn; by eexists.
Qed.


(** Reads the log of a finished run in the goal. *)
Ltac log_in_goal := rewrite <- ?app_assoc, ?drop_app_length, ?drop_all.

(** No retries: an invocation launches at most one child, and it calls
    [kill] only on a child it has launched and only when it answers
    "time_limit_exceeded". *)
Theorem at_most_one_child o event w :
  (launches_in (new_calls (lambda_handler o event) w) ≤ 1)%nat ∧
  (CKill ∈ new_calls (lambda_handler o event) w →
   launches_in (new_calls (lambda_handler o event) w) = 1%nat ∧
   ∃ r w', lambda_handler o event w = (Ok r, w') ∧
           status r = "time_limit_exceeded").
Proof.
  unfold new_calls. run; log_in_goal; cbn [launches_in app].
  all: split; [lia|]; intros Hin; set_unfold in Hin; destruct_or?;
    simplify_eq.
  all: split; [done|]; by eexists _, _.
Qed.

(** When [communicate] raises anything other than [TimeoutExpired] (say,
    the child's output cannot be decoded), the answer is
    "compilation_error" with the text of the exception, and the child is
    not killed. *)
Theorem communicate_fault_not_killed o event w code input tl t e :
  launches o event code input tl t →
  child o (Some code) input t = Raise e →
  is_TimeoutExpired e = false →
  (∃ w', lambda_handler o event w =
     (Ok {| status := "compilation_error"; output := exn_str e;
            execution_time_ms := PInt 0; memory_used_kb := 0 |}, w')) ∧
  CKill ∉ new_calls (lambda_handler o event) w.
Proof.
  intros Hl Hchild Hother. unfold new_calls. launch Hl.
  rewrite Hchild; reduce. rewrite Hother; reduce.
  split; [by eexists|]. log_in_goal.
  intros Hin. set_unfold in Hin. by destruct_or?.
Qed.


(** On a completed run the reported memory is what [ps] printed for the
    handler's own process, read as an integer; an empty print counts as 0. *)
Theorem memory_is_parsed_ps_output o event w code input tl t out err rc text n :
  launches o event code input tl t →
  child o (Some code) input t = Ok (out, err, rc) →
  ps_read o = Ok text →
  int_of_str (str_or (strip text) "0") = Some n →
  ∃ r w', lambda_handler o event w = (Ok r, w') ∧ memory_used_kb r = n.
Proof.
  intros Hl Hchild Hps Hint. launch Hl. rewrite Hchild, Hps; reduce.
  rewrite Hint; reduce.
  destruct (rc =? 0); by eexists _, _.
Qed.

(** The order of the calls on a completed run: both files are written, the
    clock is read, the input file is opened and the child launched, the
    handler waits under the timeout, reads the clock again and samples the
    memory; nothing else is called. *)
Theorem calls_on_completion o event w code input tl t out err rc :
  launches o event code input tl t →
  child o (Some code) input t = Ok (out, err, rc) →
  new_calls (lambda_handler o event) w =
    (launch_calls code input ++ [CCommunicate (Some t); CTime; CPs])%list.
Proof.
  intros Hl Hchild. unfold new_calls, launch_calls. launch Hl.
  rewrite Hchild; reduce. repeat branch; by log_in_goal.
Qed.

(** The order of the calls on a timeout: after the wait under the timeout
    comes [kill], then the draining [communicate()] without timeout unless
    [kill] itself failed; the clock is not read again and the memory is not
    sampled. *)
Theorem calls_on_timeout o event w code input tl t e :
  launches o event code input tl t →
  child o (Some code) input t = Raise e →
  is_TimeoutExpired e = true →
  new_calls (lambda_handler o event) w =
    (launch_calls code input ++ [CCommunicate (Some t); CKill] ++
     match kill_fault o with
     | None => [CCommunicate None]
     | Some _ => []
     end)%list.
Proof.
  intros Hl Hchild Hexpired. unfold new_calls, launch_calls. launch Hl.
  rewrite Hchild; reduce. rewrite Hexpired.
  repeat branch; by log_in_goal.
Qed.


(** An event that is not a dict is answered "compilation_error" with the
    text of the [AttributeError]; no file is touched and nothing is
    launched. *)
Theorem non_dict_event_refused o event w :
  type_name event ≠ "dict" →
  ∃ text,
    lambda_handler o event w =
      (Ok {| status := "compilation_error";
             output := "'" +:+ type_name event
                       +:+ "' object has no attribute 'get'";
             execution_time_ms := PInt 0; memory_used_kb := 0 |},
       {| fs := fs w; clock_reads := clock_reads w;
          calls := calls w ++ [CPrint text] |}).
Proof.
  intros Hdict. expose; reduce.
  destruct event; try done; cbn; by eexists.
Qed.

End HandlerFacts.

(** ** The statements at concrete requests *)

Section Worked.

Import TwoSum Executor.

#[local] Existing Instance ascii_builtins.

(** C1 on a child that echoes its input and exits with code 0. *)
Lemma completed_status_by_exit_code_witness :
  ∃ r w',
    lambda_handler (calm echo_child) (request "print(input())" "42") boot
      = (Ok r, w') ∧
    (0 = 0 → status r = "success" ∧ output r = "42") ∧
    (0 ≠ 0 → status r = "runtime_error" ∧ output r = "").
Proof.
  apply (completed_status_by_exit_code (calm echo_child)
           (request "print(input())" "42") boot
           "print(input())" "42" (PInt 10000) (PInt 8) "42" "" 0).
  - split; first [reflexivity | discriminate].
  - reflexivity.
Defined.

(** C2 on an event that has no [code] entry. *)
Lemma empty_code_short_circuit_witness :
  lambda_handler (calm echo_child) (PDict (<["input" := PStr "42"]> ∅)) boot =
    (Ok {| status := "compilation_error"; output := "No code provided";
           execution_time_ms := PInt 0; memory_used_kb := 0 |}, boot).
Proof.
  apply (empty_code_short_circuit (calm echo_child)
           (<["input" := PStr "42"]> ∅) boot).
  reflexivity.
Defined.


Lemma echo_run_calls :
  new_calls (lambda_handler (calm echo_child) (request "print(input())" "42")) boot =
    [COpen "/tmp/code.py" "w"; CWrite "/tmp/code.py" (PStr "print(input())");
     COpen "/tmp/input.txt" "w"; CWrite "/tmp/input.txt" (PStr "42");
     CTime; COpen "/tmp/input.txt" "r"; CPopen ["python3"; "/tmp/code.py"];
     CCommunicate (Some (PInt 8)); CTime; CPs].
Proof. vm_compute. reflexivity. Defined.



(** C6 at the failing input: a request without [time_limit_ms] (so 10000)
    whose child is still running at the deadline.  The child is stopped
    after 8 seconds, the output says so, and the clock shows 8000 ms between
    launch and outcome; the response reports [execution_time_ms] = 10000,
    the limit as requested, not the time that passed. *)
Lemma timeout_reports_requested_limit :
  ∃ r w',
    lambda_handler (calm looping_child) (request "while True: pass" "") boot
      = (Ok r, w') ∧
    status r = "time_limit_exceeded" ∧
    output r = "Execution timed out after 8 seconds" ∧
    execution_time_ms r = PInt 10000 ∧
    elapsed_ms (wall (calm looping_child) 0) (wall (calm looping_child) 1) = 8000 ∧
    execution_time_ms r ≠
      PInt (elapsed_ms (wall (calm looping_child) 0) (wall (calm looping_child) 1)).
Proof.
  eexists _, _. split; [vm_compute; reflexivity|].
  cbn [status output execution_time_ms]. split_and!; [reflexivity..|].
  vm_compute. discriminate.
Qed.

(** C7 as stated fails: two invocations with the same code and the inputs
    "1" and "2".  The first writes both files and launches its child; the
    second then writes its own files; only then does the child of the first
    do its reading.  It reads "2". *)
Lemma interleaved_invocation_reads_other_input :
  inv_stage
    (fst (fst (interleave (calm echo_child)
                 [false; false; false; false; false;
                  true; true; true; true;
                  false; false]
                 (arrive (PStr "print(input())") (PStr "1"))
                 (arrive (PStr "print(input())") (PStr "2")) boot)))
    = ChildRan {| p_source := Some "print(input())"; p_stdin := "2" |} ∧
  ¬ reads_own_files
      (fst (fst (interleave (calm echo_child)
                   [false; false; false; false; false;
                    true; true; true; true;
                    false; false]
                   (arrive (PStr "print(input())") (PStr "1"))
                   (arrive (PStr "print(input())") (PStr "2")) boot))).
Proof.
  split; [vm_compute; reflexivity|].
  intros Hown.
  destruct (Hown {| p_source := Some "print(input())"; p_stdin := "2" |})
    as [Hin _]; [vm_compute; reflexivity|].
  vm_compute in Hin. discriminate Hin.
Qed.

(** C7 (amended) on the same two requests, one strictly after the other. *)
Lemma serial_invocations_read_own_files_witness :
  let '(a, b, _) :=
    interleave (calm echo_child)
      (replicate 7 false ++ replicate 7 (negb false))%list
      (arrive (PStr "print(input())") (PStr "1"))
      (arrive (PStr "print(input())") (PStr "2")) boot in
  (settled a ∧ reads_own_files a) ∧ (settled b ∧ reads_own_files b).
Proof.
  exact (serial_invocations_read_own_files (calm echo_child) false
           (PStr "print(input())") (PStr "1")
           (PStr "print(input())") (PStr "2") boot).
Defined.

Example serial_children_ran :
  let '(a, b, _) :=
    interleave (calm echo_child) (replicate 7 false ++ replicate 7 true)%list
      (arrive (PStr "print(input())") (PStr "1"))
      (arrive (PStr "print(input())") (PStr "2")) boot in
  inv_stage a = ChildRan {| p_source := Some "print(input())"; p_stdin := "1" |} ∧
  inv_stage b = ChildRan {| p_source := Some "print(input())"; p_stdin := "2" |}.
Proof. vm_compute. split; reflexivity. Qed.

(** C8 as stated fails: after a successful invocation, whose child only
    echoes its input, both workspace files are still in [/tmp], with the
    code and the input of that invocation. *)
Lemma workspace_survives_invocation :
  status <$> (match fst (lambda_handler (calm echo_child)
                           (request "print(input())" "42") boot) with
              | Ok r => Some r
              | Raise _ => None
              end) = Some "success" ∧
  fs (snd (lambda_handler (calm echo_child) (request "print(input())" "42") boot))
    !! code_path = Some "print(input())" ∧
  fs (snd (lambda_handler (calm echo_child) (request "print(input())" "42") boot))
    !! input_path = Some "42".
Proof. split_and!; vm_compute; reflexivity. Qed.

(** C8 (amended) on an exit after the writes that launches nothing: the
    interpreter is missing, and both files are left as written. *)
Lemma workspace_never_removed_witness :
  fs (snd (lambda_handler no_interpreter (request "print(1)" "7") boot)) =
    <[input_path := "7"]> (<[code_path := "print(1)"]> (fs boot)).
Proof.
  apply (proj2 (workspace_never_removed no_interpreter
                  (request "print(1)" "7") boot) "print(1)" "7").
  split; first [reflexivity | discriminate | idtac].
  exists (PInt 10000), (PInt 8). split; reflexivity.
Defined.

(** C9 when [ps] cannot be run, against an environment where it can. *)
Lemma memory_sampling_is_advisory_witness :
  ∃ r w1 r' w1',
    lambda_handler
      (with_ps (calm echo_child) (Raise (Exn OSError "ps: not found")))
      (request "print(input())" "42") boot = (Ok r, w1) ∧
    lambda_handler
      (with_ps (with_ps (calm echo_child) (Raise (Exn OSError "ps: not found")))
         (Ok "5120"))
      (request "print(input())" "42") boot = (Ok r', w1') ∧
    memory_used_kb r = 0 ∧
    status r = status r' ∧ output r = output r' ∧
    execution_time_ms r = execution_time_ms r'.
Proof.
  apply (memory_sampling_is_advisory
           (with_ps (calm echo_child) (Raise (Exn OSError "ps: not found")))
           (request "print(input())" "42") boot (Ok "5120")).
  exact I.
Defined.

(** C10 on the sample input of the submission. *)
Lemma twoSum_correct_witness :
  (twoSum [2; 7; 11; 15] 9 ≠ [] ↔ ∃ i j, is_pair [2; 7; 11; 15] 9 i j) ∧
  (twoSum [2; 7; 11; 15] 9 ≠ [] →
   ∃ i j a b, twoSum [2; 7; 11; 15] 9 = [i; j] ∧
     (i < j < length [2; 7; 11; 15])%nat ∧
     [2; 7; 11; 15] !! i = Some a ∧ [2; 7; 11; 15] !! j = Some b ∧ a + b = 9).
Proof. exact (twoSum_correct [2; 7; 11; 15] 9). Defined.

(** A few runs of the two programs. *)

Example twoSum_sample : twoSum [2; 7; 11; 15] 9 = [0%nat; 1%nat].
Proof. reflexivity. Qed.

Example twoSum_none : twoSum [1; 2; 3] 7 = [].
Proof. reflexivity. Qed.

Example twoSum_same_value : twoSum [3; 3] 6 = [0%nat; 1%nat].
Proof. reflexivity. Qed.

Example twoSum_not_itself : twoSum [3; 1] 6 = [].
Proof. reflexivity. Qed.

Example hello_world :
  fst (lambda_handler (calm (fun _ _ _ => Ok ("Hello, World!
", "", 0)))
         (request "print('Hello, World!')" "") boot) =
    Ok {| status := "success"; output := "Hello, World!
";
          execution_time_ms := PInt 8000; memory_used_kb := 5120 |}.
Proof. vm_compute. reflexivity. Qed.

Example nonzero_exit :
  fst (lambda_handler (calm (fun _ _ _ => Ok ("partial", "ZeroDivisionError", 1)))
         (request "print(1/0)" "") boot) =
    Ok {| status := "runtime_error"; output := "ZeroDivisionError";
          execution_time_ms := PInt 8000; memory_used_kb := 5120 |}.
Proof. vm_compute. reflexivity. Qed.

Example code_not_a_string :
  fst (lambda_handler (calm echo_child) (PDict (<["code" := PInt 5]> ∅)) boot) =
    Ok {| status := "compilation_error";
          output := "write() argument must be str, not int";
          execution_time_ms := PInt 0; memory_used_kb := 0 |}.
Proof. vm_compute. reflexivity. Qed.

Example limit_below_ceiling :
  execution_timeout (PInt 500) = Ok (PFloat (500 # 1000)) ∧
  execution_timeout (PInt 8000) = Ok (PFloat (8000 # 1000)) ∧
  execution_timeout (PInt 8001) = Ok (PInt 8).
Proof. split_and!; reflexivity. Qed.


(** The further properties at concrete requests. *)


Lemma absent_keys_take_defaults_witness :
  lambda_handler (calm echo_child) (PDict {[ "code" := PStr "print(1)" ]}) boot =
  lambda_handler (calm echo_child)
    (PDict (<["input" := PStr ""]>
              (<["time_limit_ms" := PInt 10000]>
                 {[ "code" := PStr "print(1)" ]}))) boot.
Proof.
  apply (absent_keys_take_defaults (calm echo_child)
           {[ "code" := PStr "print(1)" ]} boot); reflexivity.
Defined.

Lemma non_numeric_limit_refused_witness :
  ∃ text,
    lambda_handler (calm echo_child)
      (PDict (<["time_limit_ms" := PStr "5000"]> {[ "code" := PStr "print(1)" ]}))
      boot =
      (Ok {| status := "compilation_error";
             output := "unsupported operand type(s) for /: '"
                       +:+ type_name (PStr "5000") +:+ "' and 'int'";
             execution_time_ms := PInt 0; memory_used_kb := 0 |},
       {| fs := fs boot; clock_reads := clock_reads boot;
          calls := calls boot ++ [CPrint text] |}).
Proof.
  apply (non_numeric_limit_refused (calm echo_child)
           (<["time_limit_ms" := PStr "5000"]> {[ "code" := PStr "print(1)" ]})
           boot (PStr "5000")); reflexivity.
Defined.


Lemma at_most_one_child_witness :
  (launches_in (new_calls (lambda_handler (calm looping_child)
                             (request "while True: pass" "")) boot) ≤ 1)%nat ∧
  (CKill ∈ new_calls (lambda_handler (calm looping_child)
                        (request "while True: pass" "")) boot →
   launches_in (new_calls (lambda_handler (calm looping_child)
                             (request "while True: pass" "")) boot) = 1%nat ∧
   ∃ r w', lambda_handler (calm looping_child)
             (request "while True: pass" "") boot = (Ok r, w') ∧
           status r = "time_limit_exceeded").
Proof.
  exact (at_most_one_child (calm looping_child)
           (request "while True: pass" "") boot).
Defined.

Lemma communicate_fault_not_killed_witness :
  (∃ w', lambda_handler (calm garbled_child) (request "print(input())" "42") boot =
     (Ok {| status := "compilation_error";
            output := "'utf-8' codec can't decode byte 0xff";
            execution_time_ms := PInt 0; memory_used_kb := 0 |}, w')) ∧
  CKill ∉ new_calls (lambda_handler (calm garbled_child)
                       (request "print(input())" "42")) boot.
Proof.
  apply (communicate_fault_not_killed (calm garbled_child)
           (request "print(input())" "42") boot
           "print(input())" "42" (PInt 10000) (PInt 8)
           (Exn OtherException "'utf-8' codec can't decode byte 0xff")).
  - split; first [reflexivity | discriminate].
  - reflexivity.
  - reflexivity.
Defined.

Lemma memory_is_parsed_ps_output_witness :
  ∃ r w',
    lambda_handler (calm echo_child) (request "print(input())" "42") boot
      = (Ok r, w') ∧
    memory_used_kb r = 5120.
Proof.
  apply (memory_is_parsed_ps_output (calm echo_child)
           (request "print(input())" "42") boot
           "print(input())" "42" (PInt 10000) (PInt 8) "42" "" 0 "5120" 5120).
  - split; first [reflexivity | discriminate].
  - reflexivity.
  - reflexivity.
  - reflexivity.
Defined.

Lemma calls_on_completion_witness :
  new_calls (lambda_handler (calm echo_child) (request "print(input())" "42")) boot =
    (launch_calls "print(input())" "42"
     ++ [CCommunicate (Some (PInt 8)); CTime; CPs])%list.
Proof.
  apply (calls_on_completion (calm echo_child)
           (request "print(input())" "42") boot
           "print(input())" "42" (PInt 10000) (PInt 8) "42" "" 0).
  - split; first [reflexivity | discriminate].
  - reflexivity.
Defined.

Lemma calls_on_timeout_witness :
  new_calls (lambda_handler (calm looping_child) (request "while True: pass" ""))
    boot =
    (launch_calls "while True: pass" ""
     ++ [CCommunicate (Some (PInt 8)); CKill]
     ++ match kill_fault (calm looping_child) with
        | None => [CCommunicate None]
        | Some _ => []
        end)%list.
Proof.
  apply (calls_on_timeout (calm looping_child)
           (request "while True: pass" "") boot
           "while True: pass" "" (PInt 10000) (PInt 8)
           (Exn TimeoutExpired "Command '['python3', '/tmp/code.py']' timed out")).
  - split; first [reflexivity | discriminate].
  - reflexivity.
  - reflexivity.
Defined.


Lemma non_dict_event_refused_witness :
  ∃ text,
    lambda_handler (calm echo_child) (PList [PStr "print(1)"]) boot =
      (Ok {| status := "compilation_error";
             output := "'" +:+ type_name (PList [PStr "print(1)"])
                       +:+ "' object has no attribute 'get'";
             execution_time_ms := PInt 0; memory_used_kb := 0 |},
       {| fs := fs boot; clock_reads := clock_reads boot;
          calls := calls boot ++ [CPrint text] |}).
Proof.
  apply (non_dict_event_refused (calm echo_child) (PList [PStr "print(1)"]) boot).
  discriminate.
Defined.

Lemma twoSum_returns_first_closing_pair_witness :
  (∀ i' j', is_pair [1; 1; 5; 5] 6 i' j' → (2 ≤ j')%nat) ∧
  (∀ i', is_pair [1; 1; 5; 5] 6 i' 2 → (i' ≤ 1)%nat).
Proof.
  apply (twoSum_returns_first_closing_pair [1; 1; 5; 5] 6 1 2). reflexivity.
Defined.

Lemma twoSum_finds_unique_pair_witness : twoSum [2; 7; 11; 15] 9 = [0%nat; 1%nat].
Proof.
  apply (twoSum_finds_unique_pair [2; 7; 11; 15] 9 0 1).
  - split; [lia|]. exists 2, 7. split_and!; reflexivity.
  - intros i' j' (Hlt & a & b & Ha & Hb & Hsum).
    destruct j' as [|[|[|[|j']]]], i' as [|[|[|[|i']]]];
      simplify_eq/=; first [lia | done].
Defined.

Lemma twoSum_short_list_witness : twoSum [3] 6 = [].
Proof. apply (twoSum_short_list [3] 6). simpl. lia. Defined.

Lemma twoSum_answer_stable_under_append_witness :
  twoSum ([2; 7] ++ [7; 2])%list 9 = twoSum [2; 7] 9.
Proof.
  apply (twoSum_answer_stable_under_append [2; 7] [7; 2] 9). discriminate.
Defined.

End Worked.

(** ** median_of_two_sorted_arrays *)

Section MedianFacts.

Import Median.

Local Open Scope list_scope.

Implicit Types (l : list Z) (m : Q).

Lemma sorted_Permutation l : sorted l ≡ₚ l.
Proof. apply merge_sort_Permutation. Qed.

Lemma sorted_length l : length (sorted l) = length l.
Proof. by rewrite sorted_Permutation. Qed.

Lemma sorted_StronglySorted l : StronglySorted Z.le (sorted l).
Proof. apply (StronglySorted_merge_sort _). Qed.

Lemma sorted_proper (l1 l2 : list Z) : l1 ≡ₚ l2 → sorted l1 = sorted l2.
Proof.
  intros Hperm. apply (StronglySorted_unique Z.le).
  - apply sorted_StronglySorted.
  - apply sorted_StronglySorted.
  - by rewrite !sorted_Permutation.
Qed.

(** In a sorted list, later positions hold larger elements. *)
Lemma sorted_lookup_le l (i j : nat) a b :
  StronglySorted Z.le l → l !! i = Some a → l !! j = Some b →
  (i ≤ j)%nat → a ≤ b.
Proof.
  intros Hsorted. revert i j.
  induction Hsorted as [|x l Hsorted IH Hall]; intros i j Hi Hj Hij.
  - by rewrite lookup_nil in Hi.
  - destruct i as [|i], j as [|j]; simplify_eq/=; [lia| |lia|].
    + rewrite Forall_forall in Hall. apply Hall.
      by eapply list_elem_of_lookup_2.
    + eapply IH; [done..|lia].
Qed.

Lemma py_index_in_range l (i : Z) :
  0 ≤ i < Z.of_nat (length l) →
  ∃ x, py_index l i = Some x ∧ l !! Z.to_nat i = Some x.
Proof.
  intros Hi. unfold py_index.
  rewrite (proj2 (Z.leb_le 0 i)) by lia.
  destruct (lookup_lt_is_Some_2 l (Z.to_nat i)) as [x Hx]; [lia|].
  by exists x.
Qed.

(** What the two branches of the function compute, on the merged list. *)
Lemma median_cases (nums1 nums2 : list Z) :
  let l := sorted (nums1 ++ nums2) in
  let n := length l in
  (n = 0%nat ∧ median_of_two_sorted_arrays nums1 nums2 = None) ∨
  (∃ k mid1 mid2, n = (2 * S k)%nat ∧
     l !! k = Some mid1 ∧ l !! S k = Some mid2 ∧
     median_of_two_sorted_arrays nums1 nums2 = Some ((mid1 + mid2) # 2)) ∨
  (∃ k mid, n = S (2 * k) ∧ l !! k = Some mid ∧
     median_of_two_sorted_arrays nums1 nums2 = Some (inject_Z mid)).
Proof.
  intros l n. unfold median_of_two_sorted_arrays. fold l. fold n.
  destruct (Z.eqb_spec (Z.of_nat n mod 2) 0) as [Heven|Hodd].
  - destruct (decide (n = 0%nat)) as [Hn|Hn].
    + left. split; [done|]. rewrite Hn. cbn.
      unfold py_index. subst n. by rewrite Hn.
    + right; left.
      assert (∃ k, n = (2 * S k)%nat) as [k Hk].
      { exists (Z.to_nat (Z.of_nat n / 2) - 1)%nat.
        Z.div_mod_to_equations. lia. }
      destruct (py_index_in_range l (Z.of_nat n / 2 - 1)) as (mid1 & -> & H1).
      { subst n. Z.div_mod_to_equations. lia. }
      destruct (py_index_in_range l (Z.of_nat n / 2)) as (mid2 & -> & H2).
      { subst n. Z.div_mod_to_equations. lia. }
      exists k, mid1, mid2. split_and!; [done| | |done].
      * rewrite <- H1. f_equal. Z.div_mod_to_equations. lia.
      * rewrite <- H2. f_equal. Z.div_mod_to_equations. lia.
  - right; right.
    assert (∃ k, n = S (2 * k)) as [k Hk].
    { exists (Z.to_nat (Z.of_nat n / 2)). Z.div_mod_to_equations. lia. }
    destruct (py_index_in_range l (Z.of_nat n / 2)) as (mid & -> & Hmid).
    { subst n. Z.div_mod_to_equations. lia. }
    exists k, mid. split_and!; [done| |done].
    rewrite <- Hmid. f_equal. Z.div_mod_to_equations. lia.
Qed.


(** Only the elements count, not how they are spread over or ordered in
    the two lists: inputs whose concatenations are permutations of each
    other have the same median.  The lists need not be sorted. *)
Theorem median_depends_on_elements_only (nums1 nums2 nums1' nums2' : list Z) :
  nums1 ++ nums2 ≡ₚ nums1' ++ nums2' →
  median_of_two_sorted_arrays nums1 nums2 =
  median_of_two_sorted_arrays nums1' nums2'.
Proof.
  intros Hperm. unfold median_of_two_sorted_arrays.
  by rewrite (sorted_proper _ _ Hperm).
Qed.



End MedianFacts.

Section MedianWorked.

Import Median.

Local Open Scope list_scope.


Lemma median_depends_on_elements_only_witness :
  median_of_two_sorted_arrays [9; 1] [4] = median_of_two_sorted_arrays [4] [9; 1].
Proof.
  apply (median_depends_on_elements_only [9; 1] [4] [4] [9; 1]).
  apply Permutation_app_comm.
Defined.



Example median_unsorted_input :
  median_of_two_sorted_arrays [5; 1] [4; 2] = Some (6 # 2).
Proof. reflexivity. Qed.

End MedianWorked.
